(** * A shallow embedding of the store engine (Sort query and MemoryStore)

    The development follows the two TypeScript sources: [query/Sort.ts]
    and the store module holding [BaseStore], [MemoryStore] and
    [RequestStore].

    How the sources are read.
    - A promise is represented by the way it settles; an exception thrown
      before a promise exists is kept apart from a rejection, because a
      thrown exception aborts the caller's loop and a dropped rejected
      promise does not.
    - An array is represented by its contents.  A function that writes
      into an array it was given returns the new contents of that array
      next to its result.
      Two stores can come to hold one array (a view without queries
      keeps the array its source returned); such sharing is followed
      inside a call and not from one call to the next.
    - The module is strict code: a [function] expression that is not
      bound runs with [this] undefined, and reading a member of [this]
      there raises a TypeError.  The callbacks inside [MemoryStore._get],
      [MemoryStore._add] and the live branch of [BaseStore.fetch] are
      such functions; [_isUpdate], [release] and the outer callback of
      [fetch] bind theirs.
    - [collection], which [MemoryStore._add] and [MemoryStore._delete]
      read from the store, is a member no class declares or assigns: it
      is undefined, and calling a method of it raises a TypeError.
    - [getIds] is abstract in [BaseStore] and [MemoryStore] does not
      define it: calling it raises a TypeError.
    - The text of a TypeError is the engine's; what the statements rest
      on is that the error is a TypeError and where it is raised.
    - A store is described by the values of its fields; the statements
      are about any such state.
    - The advice that [setupUpdateAspects] hangs on [_put], [_add] and
      [_delete] comes from [dojo-core/aspect], which is not among the
      sources; it hands their result to [handleUpdates], which is empty
      in [MemoryStore], and is left out. *)

From Stdlib Require Import ZArith.
From stdpp Require Import gmap strings list fin_maps pretty sorting.

Set Warnings "-register-all".

Local Open Scope string_scope.
Local Open Scope list_scope.
Local Open Scope nat_scope.

(** ** JavaScript values and completions *)

(** The values an [any]-typed expression can hold; numbers are the
    integer ones. *)
Inductive value :=
  | VUndefined
  | VNull
  | VBoolean (b : bool)
  | VNumber (n : Z)
  | VString (s : string)
  | VArray (elements : list value)
  | VObject (properties : list (string * value)).

(** [a == null]: true of [null] and [undefined] only. *)
Definition loose_null (a : value) : bool :=
  match a with
  | VUndefined | VNull => true
  | _ => false
  end.

Inductive error :=
  | Error (message : string)
  | TypeError (message : string).

(** How a call that yields a promise ends. *)
Inductive completion (A : Type) :=
  | Resolved (a : A)
  | Rejected (e : error)
  | Thrown (e : error).
Arguments Resolved {A} a.
Arguments Rejected {A} e.
Arguments Thrown {A} e.

Definition failed {A} (c : completion A) (e : error) : Prop :=
  c = Rejected e ∨ c = Thrown e.

(** An array handed back by a call, relative to the array the callee
    worked on: [Same], that very array; [Fresh], another array. *)
Inductive Returned (A : Type) :=
  | Same
  | Fresh (contents : list A).
Arguments Same {A}.
Arguments Fresh {A} contents.

(** The outcome of a call on an array: the contents of that array once
    the call is over, and what was handed back. *)
Definition returned_contents {A} (r : list A * Returned A) : list A :=
  match r.2 with
  | Same => r.1
  | Fresh l => l
  end.

Module QueryType.
Inductive t := Filter | Sort | Range.
End QueryType.

(** ** [Array.prototype.sort]

    The language's in-place sort, called with a comparator that returns
    a number.  The elements that are [undefined] are never handed to
    the comparator: they come last.  Among the others [x] stays before
    [y] unless the comparator is positive on them, and elements that
    compare equal keep their order.  The language fixes the resulting
    order only when the comparator is a consistent comparison function
    for the elements of the array ([consistent] below); for any other
    comparator the order is the implementation's, and the definition is
    one such implementation. *)

(** Which elements of an array are the value [undefined]. *)
Class Undefined (A : Type) := is_undefined : A → bool.

Section ArraySort.
Context {A : Type} `{!Undefined A}.
Variable comparator : A → A → Z.

Fixpoint sort_insert (x : A) (l : list A) : list A :=
  match l with
  | [] => [x]
  | y :: l' =>
      if (comparator x y <=? 0)%Z then x :: l else y :: sort_insert x l'
  end.

(** The sort of the elements the comparator is called on. *)
Definition sort_defined (l : list A) : list A := foldr sort_insert [] l.

Definition Array_sort (l : list A) : list A :=
  sort_defined (List.filter (fun x => negb (is_undefined x)) l) ++
  List.filter is_undefined l.

(** The order a comparator stands for. *)
Definition ordered (x y : A) : Prop := (comparator x y <= 0)%Z.

(** The elements of an array that the sort hands to the comparator. *)
Definition compared (l : list A) (x : A) : Prop :=
  x ∈ l ∧ is_undefined x = false.

(** A consistent comparison function for the elements of [l], as the
    language defines it: every element compares equal to itself,
    exchanging the arguments exchanges the sign, and the order is
    transitive. *)
Definition consistent (l : list A) : Prop :=
  (∀ a, compared l a → comparator a a = 0%Z) ∧
  (∀ a b, compared l a → compared l b →
     ((comparator a b < 0)%Z ↔ (0 < comparator b a)%Z)) ∧
  (∀ a b c, compared l a → compared l b → compared l c →
     ordered a b → ordered b c → ordered a c).
End ArraySort.

(** ** query/Sort.ts *)
Module Sort.

(** What [createSort] takes from outside the file: [createPointer] and
  [navigate] of [patch/JsonPointer], the operator [<] on the values
  found at a path ([a > b] is evaluated by the language as [b < a]),
  and the string conversions inside the template literal of
  [serialize]. *)
Class Env (T JsonPointer : Type) := {
createPointer : string → JsonPointer;
navigate : JsonPointer → T → value;
js_lt : value → value → bool;
pointer_toString : JsonPointer → string;
function_toString : (T → T → Z) → string
}.

Section Sort.
Context {T JsonPointer : Type} `{!Env T JsonPointer} `{!Undefined T}.

Inductive ComparatorOrProperty :=
  | Comparator (f : T → T → Z)
  | Property (path : string)
  | Pointer (pointer : JsonPointer).

(** The readonly members of the interface [Sort<T>], which are what a
    serializer reads from the sort it is handed. *)
Record Properties := {
  comparatorOrProperty : ComparatorOrProperty;
  descending : option bool;
  queryType : QueryType.t
}.

Record Sort := {
  properties : Properties;
  apply : list T → list T * Returned T;
  toString : option (Properties → string) → completion string
}.

Definition sortValue (a b : value) : Z :=
  if loose_null a && loose_null b then 0
  else if loose_null a && negb (loose_null b) then -1
  else if loose_null b && negb (loose_null a) then 1
  else if js_lt a b then -1
  else if js_lt b a then 1
  else 0.

(** What makes [<] a strict weak order where [sortValue] applies it,
    on values that are not null or undefined: it does not hold both
    ways between two values, and a value that is neither above [a] nor
    below [d] does not stand between them. *)
Definition one_way (a b : value) : Prop :=
  loose_null a = false → loose_null b = false →
  js_lt a b = true → js_lt b a = false.

Definition between (a b d : value) : Prop :=
  loose_null a = false → loose_null b = false → loose_null d = false →
  js_lt a d = true → js_lt a b = true ∨ js_lt b d = true.

(** [<] is a strict weak order on the values found at the path in the
    elements of [l] that the sort compares. *)
Definition strict_weak_order (pointer : JsonPointer) (l : list T) : Prop :=
  (∀ x y, compared l x → compared l y →
     one_way (navigate pointer x) (navigate pointer y)) ∧
  (∀ x y z, compared l x → compared l y → compared l z →
     between (navigate pointer x) (navigate pointer y) (navigate pointer z)).

Definition flip (comparator : T → T → Z) : T → T → Z :=
  fun a b => (-1 * comparator a b)%Z.

(** An optional boolean used as a condition. *)
Definition truthy (flag : option bool) : bool := default false flag.

Definition serialize (sort : Properties) : string :=
  "Sort(" +:+
    match comparatorOrProperty sort with
    | Comparator f => function_toString f
    | Property path => path
    | Pointer pointer => pointer_toString pointer
    end +:+ ", " +:+ (if truthy (descending sort) then "-" else "+") +:+ ")".

(** [typeof comparatorOrProperty === 'function']. *)
Definition isFunction (c : ComparatorOrProperty) : bool :=
  match c with
  | Comparator _ => true
  | _ => false
  end.

(** Lines 20 to 25: the pointer a property stands for. *)
Definition pointer_of (c : ComparatorOrProperty) : option JsonPointer :=
  match c with
  | Comparator _ => None
  | Property path => Some (createPointer path)
  | Pointer pointer => Some pointer
  end.

(** Lines 14 to 31 of [createSort]: the comparator the closure keeps. *)
Definition comparator (c : ComparatorOrProperty) (descending : option bool)
    : T → T → Z :=
  let comparator :=
    match c with
    | Comparator f => f
    | Property path =>
        let pointer := createPointer path in
        fun a b => sortValue (navigate pointer a) (navigate pointer b)
    | Pointer pointer =>
        fun a b => sortValue (navigate pointer a) (navigate pointer b)
    end in
  if truthy descending then flip comparator else comparator.

(** [sortSerializer || serializer || serialize]. *)
Definition first_of (sortSerializer serializer : option (Properties → string))
    : Properties → string :=
  match sortSerializer, serializer with
  | Some f, _ => f
  | None, Some f => f
  | None, None => serialize
  end.

(** Lines 32 to 43: [data.sort(comparator)] sorts the array it is
    given and hands that array back. *)
Definition createSort (c : ComparatorOrProperty) (descending : option bool)
    (serializer : option (Properties → string)) : Sort :=
  let this :=
    {| comparatorOrProperty := c;
       descending := descending;
       queryType := QueryType.Sort |} in
  {| properties := this;
     apply := fun data => (Array_sort (comparator c descending) data, Same);
     toString := fun sortSerializer =>
       if isFunction c
       then Thrown (Error "Cannot parse this sort type to an RQL query string")
       else Resolved (first_of sortSerializer serializer this) |}.
End Sort.

Arguments ComparatorOrProperty : clear implicits.
Arguments Properties : clear implicits.
Arguments Sort : clear implicits.
End Sort.

(** ** The store module: events, queries, [BaseStore] and [MemoryStore] *)

(** The members of [Query<T>] a store calls. *)
Module Query.
Record t (T : Type) := {
  apply : list T → list T * Returned T;
  queryType : QueryType.t
}.
Arguments apply {T} _ _.
Arguments queryType {T} _.
End Query.

(** A [Sort<T>] is a [Query<T>]. *)
Definition Query_of_Sort {T JsonPointer : Type} (sort : Sort.Sort T JsonPointer)
    : Query.t T :=
  {| Query.apply := Sort.apply sort;
     Query.queryType := Sort.queryType (Sort.properties sort) |}.

(** Modelled from the spec: [query/Range.ts] is not among the sources.
    "[apply] returns the sub-sequence [start, start+count), clamped to
    available length; count of zero yields an empty sequence." *)
Definition rangeFactory {T : Type} (start count : nat) : Query.t T :=
  {| Query.apply := fun data => (data, Fresh (take count (drop start data)));
     Query.queryType := QueryType.Range |}.

(** What the store reads of an item.  [item_id] is [(<any> item).id]
    used as a property key, and is [None] for the items [null] and
    [undefined], of which no property can be read.  [T] is erased when
    the code runs, so an array of items can stand where an item is
    expected: [array] is that value. *)
Class Items (T : Type) := {
  item_id : T → option string;
  array : list T → T
}.

Section Store.
Context {T : Type} `{!Items T}.

(** The events; the lazily computed [diff] of [ItemUpdated] is a
    [Patch] and is left out. *)
Inductive Update :=
  | ItemAdded (item : T) (index : option nat)
  | ItemUpdated (item : T) (index previousIndex : option nat)
  | ItemDeleted (id : string) (index : option nat)
  | BatchUpdate (updates : list Update).

Record IndexedEntry := { item : T; index : nat }.

(** The fields of a store.  [map] holds the own properties of the
    [ItemMap] object. *)
Inductive MemoryStore := {
  source : option MemoryStore;
  queries : list (Query.t T);
  map : gmap string IndexedEntry;
  data : list T;
  version : nat;
  isLive : bool
}.

Definition set_source (src : MemoryStore) (s : MemoryStore) : MemoryStore :=
  {| source := Some src; queries := queries s; map := map s;
     data := data s; version := version s; isLive := isLive s |}.
Definition set_map (m : gmap string IndexedEntry) (s : MemoryStore) : MemoryStore :=
  {| source := source s; queries := queries s; map := m;
     data := data s; version := version s; isLive := isLive s |}.
Definition set_data (d : list T) (s : MemoryStore) : MemoryStore :=
  {| source := source s; queries := queries s; map := map s;
     data := d; version := version s; isLive := isLive s |}.
Definition set_version (v : nat) (s : MemoryStore) : MemoryStore :=
  {| source := source s; queries := queries s; map := map s;
     data := data s; version := v; isLive := isLive s |}.

(** [MemoryStore.getId], lines 470 to 472: reading [item.id] throws for
    an item that is [null] or [undefined]; otherwise the promise
    resolves with the id. *)
Definition getId (item : T) : completion string :=
  match item_id item with
  | Some id => Resolved id
  | None => Thrown (TypeError "Cannot read property 'id' of undefined")
  end.

(** [BaseStore.buildMap], lines 359 to 368, on a [MemoryStore]: the
    argument of [Promise.resolve] starts with the call
    [this.getIds(...collection)], and a [MemoryStore] has no [getIds];
    the callback that fills the map is not reached. *)
Definition buildMap (collection : list T) (map : option (gmap string IndexedEntry))
    : completion (list IndexedEntry) :=
  Thrown (TypeError "this.getIds is not a function").

(** [MemoryStore._add], lines 478 to 492.  The callback handed to
    [then] is not bound: its first statement reads [this.map] with
    [this] undefined, so the promise is rejected before the duplicate
    check, and nothing is pushed or written. *)
Definition _add (s : MemoryStore) (item : T) : MemoryStore * completion Update :=
  match getId item with
  | Resolved id => (s, Rejected (TypeError "Cannot read property 'map' of undefined"))
  | Rejected e => (s, Rejected e)
  | Thrown e => (s, Thrown e)
  end.

(** [MemoryStore._delete], lines 500 to 512.  After [this.version++]
    and [delete this.map[id]] the statement
    [this.collection.splice(...)] reads [splice] of [this.collection],
    which is undefined: the call throws there for every id, before its
    argument [mapEntry.index] is read, and neither the splice nor
    [buildMap] takes place. *)
Definition _delete (s : MemoryStore) (id : string) : MemoryStore * completion Update :=
  let s := set_version (S (version s)) s in
  let s := set_map (delete id (map s)) s in
  (s, Thrown (TypeError "Cannot read property 'splice' of undefined")).

(** The reduction [queries.reduce((prev, next) => next.apply(prev), data)]:
    the contents of [data] once it is over, and the array it yields. *)
Definition reduce_apply (queries : list (Query.t T)) (data : list T)
    : list T * Returned T :=
  fold_left
    (fun acc next =>
       match acc.2 with
       | Same => Query.apply next acc.1
       | Fresh prev => (acc.1, Fresh (returned_contents (Query.apply next prev)))
       end)
    queries (data, Same).

(** [MemoryStore._fetch], lines 523 to 525; the rest parameter is
    never read. *)
Definition _fetch (s : MemoryStore) (queries_arg : option (list (Query.t T)))
    : MemoryStore * completion (Returned T) :=
  let r := reduce_apply (queries s) (data s) in
  (set_data r.1 s, Resolved r.2).

(** What a fetch yielded, read in the store as the call left it. *)
Definition fetched (r : MemoryStore * completion (Returned T)) : completion (list T) :=
  match r.2 with
  | Resolved Same => Resolved (data r.1)
  | Resolved (Fresh l) => Resolved l
  | Rejected e => Rejected e
  | Thrown e => Thrown e
  end.

(** [BaseStore.fetch], lines 260 to 277.  [version] is a number in
    every store.  In the live branch [this.buildMap(this.data)] is
    called inside the bound callback, after [version] and [data] have
    been assigned, and what it throws rejects the promise; the function
    that would assign [this.map] is not bound. *)
Fixpoint fetch (s : MemoryStore) (queries_arg : option (list (Query.t T)))
    : MemoryStore * completion (Returned T) :=
  match source s with
  | Some src =>
      if bool_decide (version s ≠ version src) then
        let '(src, c) := fetch src (Some (queries s)) in
        match c with
        | Resolved fullData =>
            let r := reduce_apply (queries s)
                       (match fullData with Same => data src | Fresh l => l end) in
            let src :=
              match fullData with Same => set_data r.1 src | Fresh _ => src end in
            let s :=
              {| source := Some src; queries := queries s; map := map s;
                 data := returned_contents r; version := version src;
                 isLive := isLive s |} in
            if isLive s then
              match buildMap (data s) None with
              | Resolved map =>
                  (s, Rejected (TypeError "Cannot set property 'map' of undefined"))
              | Rejected e | Thrown e => (s, Rejected e)
              end
            else (s, Resolved Same)
        | Rejected e => (set_source src s, Rejected e)
        | Thrown e => (set_source src s, Thrown e)
        end
      else _fetch s queries_arg
  | None => _fetch s queries_arg
  end.

(** [MemoryStore._get], lines 389 to 393.  The callback of [ids.map] is
    not bound: called for the first id it reads [this.map] with [this]
    undefined and throws, before [duplicate] is reached; with no id the
    callback is not called. *)
Definition _get (s : MemoryStore) (ids : list string) : completion (list T) :=
  match ids with
  | [] => Resolved []
  | id :: ids => Thrown (TypeError "Cannot read property 'map' of undefined")
  end.

(** [BaseStore.get], lines 177 to 183. *)
Fixpoint get (s : MemoryStore) (ids : list string) : completion (list T) :=
  match source s with
  | Some src => get src ids
  | None => _get s ids
  end.

(** [results.map(...)] where [results] is the single event a
    [MemoryStore] primitive resolves with, not an array. *)
Definition map_results {A} (c : completion Update) : completion (list A) :=
  match c with
  | Resolved _ => Rejected (TypeError "results.map is not a function")
  | Rejected e => Rejected e
  | Thrown e => Thrown e
  end.

(** [BaseStore.add], lines 230 to 243, called with at least one
    argument: [add(item, ...rest)].  With a source the call is
    [this.source.add(items)]: one argument, the array of the
    arguments. *)
Fixpoint add (s : MemoryStore) (item : T) (rest : list T)
    : MemoryStore * completion (list T) :=
  match source s with
  | Some src =>
      let '(src, c) := add src (array (item :: rest)) [] in
      (set_source src s, c)
  | None =>
      let s := set_version (S (version s)) s in
      let '(s, c) := _add s item in
      (s, map_results c)
  end.

(** [BaseStore.delete], lines 245 to 258, called with at least one
    argument.  With a source the call is [this.source.delete(...ids)].
    [_delete] takes one id; a second argument lands in its unused
    [index] parameter. *)
Fixpoint delete (s : MemoryStore) (id : string) (rest : list string)
    : MemoryStore * completion (list string) :=
  match source s with
  | Some src =>
      let '(src, c) := delete src id rest in
      (set_source src s, c)
  | None =>
      let s := set_version (S (version s)) s in
      let '(s, c) := _delete s id in
      (s, map_results c)
  end.

(** [BaseStore.put], lines 185 to 228.  With a source the call is
    [this.source.put(itemsOrPatches)]: one argument, the array of the
    arguments.  The branch of a store without source runs through
    [./Transaction], which is not among the sources: [put_root] stands
    for it. *)
Fixpoint put (put_root : MemoryStore → list T → MemoryStore * completion (list T))
    (s : MemoryStore) (itemsOrPatches : list T)
    : MemoryStore * completion (list T) :=
  match source s with
  | Some src =>
      let '(src, c) := put put_root src [array itemsOrPatches] in
      (set_source src s, c)
  | None => put_root s itemsOrPatches
  end.

(** [eventOrEvents.updates || [ eventOrEvents ]]. *)
Definition events_of (eventOrEvents : Update) : list Update :=
  match eventOrEvents with
  | BatchUpdate updates => updates
  | _ => [eventOrEvents]
  end.

(** What a call whose promise is dropped lets the caller see: the
    exception, if it threw one. *)
Definition thrown_of {A} (c : completion A) : option error :=
  match c with
  | Thrown e => Some e
  | _ => None
  end.

(** The loop of [propagateUpdate].  The promises of the primitives are
    dropped, so a rejection is not seen, and an exception leaves the
    loop.  The body of [MemoryStore._put] does not parse (line 457), so
    the primitive is a parameter: the store it leaves, and the
    exception if it throws. *)
Fixpoint forEach_event (_put : MemoryStore → T → MemoryStore * option error)
    (events : list Update) (s : MemoryStore) : MemoryStore * option error :=
  match events with
  | [] => (s, None)
  | event :: events =>
      let '(s, thrown) :=
        match event with
        | ItemAdded item _ => let '(s, c) := _add s item in (s, thrown_of c)
        | ItemUpdated item _ _ => _put s item
        | ItemDeleted id _ => let '(s, c) := _delete s id in (s, thrown_of c)
        | BatchUpdate _ => (s, None)
        end in
      match thrown with
      | Some e => (s, Some e)
      | None => forEach_event _put events s
      end
  end.

(** [BaseStore.propagateUpdate], lines 333 to 353. *)
Definition propagateUpdate (_put : MemoryStore → T → MemoryStore * option error)
    (s : MemoryStore) (eventOrEvents : Update) : MemoryStore * option error :=
  let events := events_of eventOrEvents in
  let s := set_version (S (version s)) s in
  let s := set_version (version s + length events) s in
  forEach_event _put events s.

(** The store at the end of the chain of sources, where the primitives
    run. *)
Fixpoint root (s : MemoryStore) : MemoryStore :=
  match source s with
  | Some src => root src
  | None => s
  end.

Definition is_delete (event : Update) : bool :=
  match event with ItemDeleted _ _ => true | _ => false end.

Definition is_batch (event : Update) : bool :=
  match event with BatchUpdate _ => true | _ => false end.

(** [MemoryOptions], lines 84 to 92: every member is optional. *)
Record MemoryOptions := {
  options_source : option MemoryStore;
  options_queries : option (list (Query.t T));
  options_data : option (list T);
  options_map : option (gmap string IndexedEntry);
  options_version : option nat
}.

(** The constructor of [MemoryStore], lines 380 to 387.  [super()] is
    called without options, so the constructor of [BaseStore] (lines
    115 to 125) leaves [source] undefined, [queries] empty and
    [version] 1; then [options.data] is read, which throws when no
    options were passed; [source] being undefined, [buildMap] is called
    next, and what it throws leaves the constructor. *)
Definition MemoryStore_constructor (options : option MemoryOptions)
    : completion MemoryStore :=
  match options with
  | None => Thrown (TypeError "Cannot read property 'data' of undefined")
  | Some options =>
      let data := default [] (options_data options) in
      let map := default ∅ (options_map options) in
      match buildMap data (Some map) with
      | Resolved _ =>
          Resolved {| source := None; queries := []; map := map;
                      data := data; version := 1; isLive := false |}
      | Rejected e | Thrown e => Thrown e
      end
  end.

(** [BaseStore.getOptions], lines 370 to 375. *)
Definition getOptions (s : MemoryStore) : MemoryOptions :=
  {| options_source := Some (default s (source s));
     options_queries := Some (queries s);
     options_data := None; options_map := None; options_version := None |}.

(** [BaseStore.createSubcollection], lines 319 to 321, for a store whose
    class is [MemoryStore]: [StoreClass] is the constructor of the
    store. *)
Definition createSubcollection (options : MemoryOptions) : completion MemoryStore :=
  MemoryStore_constructor (Some options).

(** [BaseStore.query], lines 312 to 317; [filter], [range] and [sort]
    end in it. *)
Definition query (s : MemoryStore) (q : Query.t T) : completion MemoryStore :=
  let options := getOptions s in
  let options :=
    {| options_source := options_source options;
       options_queries := Some (default [] (options_queries options) ++ [q]);
       options_data := options_data options;
       options_map := options_map options;
       options_version := options_version options |} in
  createSubcollection options.
End Store.

Arguments Update : clear implicits.
Arguments IndexedEntry : clear implicits.
Arguments MemoryStore : clear implicits.
Arguments MemoryOptions : clear implicits.

(** ** Items as plain values *)

(** Reading a property of a value that is an object. *)
Fixpoint property (name : string) (properties : list (string * value)) : value :=
  match properties with
  | [] => VUndefined
  | (key, v) :: properties =>
      if decide (key = name) then v else property name properties
  end.

(** The conversion to a string, as a property key needs it. *)
Fixpoint toPropertyKey (v : value) : string :=
  match v with
  | VUndefined => "undefined"
  | VNull => "null"
  | VBoolean b => if b then "true" else "false"
  | VNumber n => pretty n
  | VString s => s
  | VArray elements =>
      String.concat ","
        (List.map (fun e => if loose_null e then "" else toPropertyKey e) elements)
  | VObject _ => "[object Object]"
  end.

(** The member [id] of an object is the property of that name; an array
    and a primitive value have none, and give [undefined]. *)
#[global] Instance value_Items : Items value := {|
  item_id item :=
    match item with
    | VUndefined | VNull => None
    | VObject properties => Some (toPropertyKey (property "id" properties))
    | _ => Some "undefined"
    end;
  array := VArray
|}.

#[global] Instance value_Undefined : Undefined value :=
  fun v => match v with VUndefined => true | _ => false end.

(** ** Data for the examples *)

(** A stand-in for [patch/JsonPointer] to run the examples with: a
    pointer is the name of one property, and [<] is the order of two
    numbers or of two strings. *)
Definition prim_lt (a b : value) : bool :=
  match a, b with
  | VNumber m, VNumber n => (m <? n)%Z
  | VString s, VString t => String.ltb s t
  | _, _ => false
  end.

#[global] Instance example_Env : Sort.Env value string := {|
  Sort.createPointer path := path;
  Sort.navigate pointer x :=
    match x with
    | VObject properties => property pointer properties
    | _ => VUndefined
    end;
  Sort.js_lt := prim_lt;
  Sort.pointer_toString pointer := pointer;
  Sort.function_toString _ := "function"
|}.

Definition record (id : string) (v : value) : value :=
  VObject [("id", VString id); ("v", v)].

Definition by_number : Sort.ComparatorOrProperty value string :=
  Sort.Comparator
    (fun a b =>
       match a, b with
       | VNumber m, VNumber n => (m - n)%Z
       | _, _ => 0%Z
       end).

(** A comparator that ranks every value by a number. *)
Definition rank (a : value) : Z :=
  match a with
  | VNumber n => n
  | _ => 0%Z
  end.

Definition by_rank : Sort.ComparatorOrProperty value string :=
  Sort.Comparator (fun a b => (rank a - rank b)%Z).

(** An environment whose [<] compares the ranks of two values. *)
Definition rank_Env : Sort.Env value string := {|
  Sort.createPointer path := path;
  Sort.navigate pointer x :=
    match x with
    | VObject properties => property pointer properties
    | _ => VUndefined
    end;
  Sort.js_lt a b := (rank a <? rank b)%Z;
  Sort.pointer_toString pointer := pointer;
  Sort.function_toString _ := "function"
|}.

(** A derived store as the constructor of [BaseStore] sets it up from
    [{ source, queries }], lines 115 to 125. *)
Definition derived {T : Type} (src : MemoryStore T) (qs : list (Query.t T))
    : MemoryStore T :=
  {| source := Some src; queries := qs;
     map := ∅; data := []; version := version src; isLive := false |}.

Definition item_a : value := record "a" (VNumber 1).
Definition item_b : value := record "b" (VNumber 2).
Definition item_c : value := record "c" (VNumber 3).
Definition item_d : value := record "d" (VNumber 4).

(** A store without source that holds [a], [b] and [c], each under its
    id with its position. *)
Definition store_abc : MemoryStore value :=
  {| source := None; queries := [];
     map := {[ "a" := {| item := item_a; index := 0 |};
               "b" := {| item := item_b; index := 1 |};
               "c" := {| item := item_c; index := 2 |} ]};
     data := [item_a; item_b; item_c]; version := 1; isLive := false |}.

(** The same store one version later, holding [d] as well. *)
Definition store_abcd : MemoryStore value :=
  {| source := None; queries := [];
     map := {[ "a" := {| item := item_a; index := 0 |};
               "b" := {| item := item_b; index := 1 |};
               "c" := {| item := item_c; index := 2 |};
               "d" := {| item := item_d; index := 3 |} ]};
     data := [item_a; item_b; item_c; item_d]; version := 2; isLive := false |}.

(** A view of the second and third items, set up when its source was
    [store_abc] and read now that the source is [store_abcd]. *)
Definition range_view : MemoryStore value :=
  set_source store_abcd (derived store_abc [rangeFactory 1 2]).

(** The same view once [track] has set [isLive]. *)
Definition live_range_view : MemoryStore value :=
  {| source := source range_view; queries := queries range_view;
     map := map range_view; data := data range_view;
     version := version range_view; isLive := true |}.

Definition empty_store : MemoryStore value :=
  {| source := None; queries := []; map := ∅; data := []; version := 1;
     isLive := false |}.

Definition empty_view : MemoryStore value := derived empty_store [].

(** A view in live-tracking mode. *)
Definition tracking_view : MemoryStore value :=
  {| source := Some store_abc; queries := []; map := map store_abc;
     data := data store_abc; version := version store_abc; isLive := true |}.

(** A [_put] that throws at once. *)
Definition throwing_put (s : MemoryStore value) (x : value)
    : MemoryStore value * option error :=
  (s, Some (TypeError "itemsOrPatches.reduce is not a function")).

(** A root [put] that resolves with the arguments it was called
    with. *)
Definition echoing_put (s : MemoryStore value) (itemsOrPatches : list value)
    : MemoryStore value * completion (list value) :=
  (s, Resolved itemsOrPatches).

(** A comparator that is negative on every pair. *)
Definition always_before : Sort.ComparatorOrProperty value string :=
  Sort.Comparator (fun _ _ => (-1)%Z).


Definition sorting_store : MemoryStore value :=
  {| source := None;
     queries := [Query_of_Sort (Sort.createSort by_rank None None)];
     map := ∅; data := [VNumber 3; VNumber 1; VNumber 2];
     version := 1; isLive := false |}.


(** Options that name three items. *)
Definition options_abc : MemoryOptions value :=
  {| options_source := None; options_queries := None;
     options_data := Some [item_a; item_b; item_c];
     options_map := None; options_version := None |}.

(** * Theorems *)

(** ** The in-place sort *)
Section ArraySortFacts.
Context {A : Type} `{!Undefined A} (comparator : A → A → Z).

Lemma sort_insert_perm x l : sort_insert comparator x l ≡ₚ x :: l.
Proof.
  induction l as [|y l IH]; simpl; [done|].
  destruct (comparator x y <=? 0)%Z; [done|].
  rewrite IH. apply Permutation_swap.
Qed.

Lemma sort_defined_perm l : sort_defined comparator l ≡ₚ l.
Proof.
  induction l as [|x l IH]; simpl; [done|].
  rewrite sort_insert_perm. by rewrite IH.
Qed.

(** An array that is in order is left as it is. *)
Lemma sort_defined_fixed l :
  StronglySorted (ordered comparator) l → sort_defined comparator l = l.
Proof.
  induction 1 as [|x l Hl IH Hx]; simpl; [done|].
  rewrite IH. destruct Hx as [|y l Hxy _]; simpl; [done|].
  unfold ordered in Hxy. apply Z.leb_le in Hxy. by rewrite Hxy.
Qed.

(** Sorting elements among which the comparator is a total and
    transitive order. *)
Section Within.
Variable P : A → Prop.
Hypothesis total : ∀ x y, P x → P y → ordered comparator x y ∨ ordered comparator y x.
Hypothesis transitive :
  ∀ x y z, P x → P y → P z →
    ordered comparator x y → ordered comparator y z → ordered comparator x z.

Lemma sort_insert_sorted x l :
  P x → Forall P l →
  StronglySorted (ordered comparator) l →
  StronglySorted (ordered comparator) (sort_insert comparator x l).
Proof.
  intros Px Pl Hl. induction Hl as [|y l Hl IH Hy]; simpl.
  - repeat constructor.
  - apply Forall_cons in Pl as [Py Pl].
    destruct (comparator x y <=? 0)%Z eqn:Hxy.
    + apply Z.leb_le in Hxy. constructor; [by constructor|].
      constructor; [done|].
      apply Forall_forall. intros z Hz.
      apply (transitive x y z); [done|done| |done|].
      * by eapply Forall_forall in Pl.
      * by eapply Forall_forall in Hy.
    + apply Z.leb_gt in Hxy. constructor; [by apply IH|].
      rewrite sort_insert_perm. constructor; [|done].
      destruct (total x y Px Py) as [H|H]; [|done]. unfold ordered in H. lia.
Qed.

Lemma sort_defined_sorted l :
  Forall P l → StronglySorted (ordered comparator) (sort_defined comparator l).
Proof.
  induction 1 as [|x l Px Pl IH]; simpl; [constructor|].
  apply sort_insert_sorted; [done| |done].
  by rewrite sort_defined_perm.
Qed.
End Within.

Lemma filter_all (f : A → bool) l :
  Forall (fun x => f x = true) l → List.filter f l = l.
Proof. induction 1 as [|x l Hx _ IH]; simpl; [done|]. by rewrite Hx, IH. Qed.

Lemma filter_none (f : A → bool) l :
  Forall (fun x => f x = false) l → List.filter f l = [].
Proof. induction 1 as [|x l Hx _ IH]; simpl; [done|]. by rewrite Hx, IH. Qed.

Lemma filter_holds (f : A → bool) l : Forall (fun x => f x = true) (List.filter f l).
Proof.
  induction l as [|x l IH]; simpl; [constructor|].
  destruct (f x) eqn:Hx; [by constructor|done].
Qed.

Lemma filter_elem_of (f : A → bool) l x : x ∈ List.filter f l → x ∈ l.
Proof.
  induction l as [|y l IH]; simpl; [done|].
  destruct (f y).
  - intros [->|H]%elem_of_cons; [left|right; auto].
  - intros H. right. auto.
Qed.

Lemma filter_split_perm (f : A → bool) l :
  List.filter (fun x => negb (f x)) l ++ List.filter f l ≡ₚ l.
Proof.
  induction l as [|x l IH]; simpl; [done|].
  destruct (f x); simpl.
  - rewrite <- Permutation_middle. by rewrite IH.
  - by rewrite IH.
Qed.

(** The sort permutes the array, whatever the comparator. *)
Lemma Array_sort_perm l : Array_sort comparator l ≡ₚ l.
Proof. unfold Array_sort. rewrite sort_defined_perm. apply filter_split_perm. Qed.

(** The elements handed to the comparator are defined elements of the
    array. *)
Lemma compared_filter l :
  Forall (compared l) (List.filter (fun x => negb (is_undefined x)) l).
Proof.
  apply Forall_forall. intros x Hx. split; [by eapply filter_elem_of|].
  pose proof (filter_holds (fun x => negb (is_undefined x)) l) as H.
  eapply Forall_forall in H; [|exact Hx]. simpl in H. by destruct (is_undefined x).
Qed.

Lemma consistent_total l x y :
  consistent comparator l → compared l x → compared l y →
  ordered comparator x y ∨ ordered comparator y x.
Proof.
  intros (_ & Hexchange & _) Hx Hy. unfold ordered.
  destruct (decide (comparator x y <= 0)%Z); [by left|right].
  apply Z.lt_le_incl, (Hexchange y x Hy Hx). lia.
Qed.

(** For a consistent comparison function the defined elements come out
    in order. *)
Lemma sort_defined_consistent l :
  consistent comparator l →
  StronglySorted (ordered comparator)
    (sort_defined comparator (List.filter (fun x => negb (is_undefined x)) l)).
Proof.
  intros Hc. apply (sort_defined_sorted (compared l)).
  - intros x y. by apply consistent_total.
  - destruct Hc as (_ & _ & Htrans). exact Htrans.
  - apply compared_filter.
Qed.

Lemma sort_defined_are_defined l :
  Forall (fun x => negb (is_undefined x) = true)
    (sort_defined comparator (List.filter (fun x => negb (is_undefined x)) l)).
Proof. rewrite sort_defined_perm. apply filter_holds. Qed.

(** The shape of a sorted array: the defined elements, in order, and
    then the undefined ones. *)
Lemma Array_sort_shape l :
  consistent comparator l →
  ∃ defined undefined,
    Array_sort comparator l = defined ++ undefined ∧
    Forall (fun x => is_undefined x = false) defined ∧
    Forall (fun x => is_undefined x = true) undefined ∧
    StronglySorted (ordered comparator) defined.
Proof.
  intros Hc. eexists _, _. split_and!; [reflexivity| |apply filter_holds|].
  - eapply Forall_impl; [apply sort_defined_are_defined|].
    intros x. simpl. by destruct (is_undefined x).
  - by apply sort_defined_consistent.
Qed.

(** Sorting a sorted array again changes nothing. *)
Lemma Array_sort_again l :
  consistent comparator l →
  Array_sort comparator (Array_sort comparator l) = Array_sort comparator l.
Proof.
  intros Hc. unfold Array_sort at 1.
  set (defined := sort_defined comparator
                    (List.filter (fun x => negb (is_undefined x)) l)).
  set (undefined := List.filter is_undefined l).
  assert (Forall (fun x => negb (is_undefined x) = true) defined) as Hd
    by apply sort_defined_are_defined.
  assert (Forall (fun x => is_undefined x = true) undefined) as Hu
    by apply filter_holds.
  unfold Array_sort. fold defined undefined.
  rewrite !List.filter_app.
  rewrite (filter_all _ defined Hd).
  rewrite (filter_none (fun x => negb (is_undefined x)) undefined)
    by (eapply Forall_impl; [exact Hu|]; by intros x ->).
  rewrite (filter_none is_undefined defined)
    by (eapply Forall_impl; [exact Hd|]; intros x; simpl;
        by destruct (is_undefined x)).
  rewrite (filter_all _ undefined Hu).
  rewrite app_nil_r. simpl.
  by rewrite sort_defined_fixed by (by apply sort_defined_consistent).
Qed.
End ArraySortFacts.

(** ** query/Sort.ts *)
Section SortFacts.
Context {T JsonPointer : Type} `{!Sort.Env T JsonPointer} `{!Undefined T}.
Implicit Types (c : Sort.ComparatorOrProperty T JsonPointer).
Implicit Types (serializer : option (Sort.Properties T JsonPointer → string)).

Lemma sortValue_range a b :
  Sort.sortValue a b = (-1)%Z ∨ Sort.sortValue a b = 0%Z ∨ Sort.sortValue a b = 1%Z.
Proof.
  unfold Sort.sortValue.
  repeat match goal with |- context [if ?x then _ else _] => destruct x end; auto.
Qed.

(** C4 (amended): [apply] sorts the array it is given in place and
    hands that same array back, so after the call the input holds the
    returned sequence.  When the comparator is a consistent comparison
    function for the elements of the array, that sequence is a
    permutation of what the input held before, made of the defined
    elements in the comparator's order followed by the undefined ones,
    and a further call on it returns it again. *)
Theorem C4_apply_sorts_in_place c descending serializer (data : list T) :
  let sort := Sort.createSort c descending serializer in
  let cmp := Sort.comparator c descending in
  (Sort.apply sort data).2 = Same ∧
  returned_contents (Sort.apply sort data) = (Sort.apply sort data).1 ∧
  (consistent cmp data →
     (Sort.apply sort data).1 ≡ₚ data ∧
     (∃ defined undefined,
        (Sort.apply sort data).1 = defined ++ undefined ∧
        Forall (fun x => is_undefined x = false) defined ∧
        Forall (fun x => is_undefined x = true) undefined ∧
        StronglySorted (ordered cmp) defined) ∧
     Sort.apply sort (Sort.apply sort data).1 = Sort.apply sort data).
Proof.
  simpl. split_and!; try done.
  intros Hc. split_and!.
  - apply Array_sort_perm.
  - by apply Array_sort_shape.
  - f_equal. by apply Array_sort_again.
Qed.

(** C7: for a sort built from a property path, the comparator is -1
    when the first value at the path is null or undefined and the
    second is not, 0 when both are, always one of -1, 0 and 1; the
    descending comparator is the negation of the ascending one on
    every pair, so it is 0 exactly where the ascending one is. *)
Theorem C7_path_comparator c (pointer : JsonPointer) (ascending : option bool)
    (Hpath : Sort.pointer_of c = Some pointer)
    (Hascending : Sort.truthy ascending = false) :
  let asc := Sort.comparator c ascending in
  let desc := Sort.comparator c (Some true) in
  (∀ a b, loose_null (Sort.navigate pointer a) = true →
          loose_null (Sort.navigate pointer b) = false → asc a b = (-1)%Z) ∧
  (∀ a b, loose_null (Sort.navigate pointer a) = true →
          loose_null (Sort.navigate pointer b) = true → asc a b = 0%Z) ∧
  (∀ a b, asc a b = (-1)%Z ∨ asc a b = 0%Z ∨ asc a b = 1%Z) ∧
  (∀ a b, desc a b = (- asc a b)%Z) ∧
  (∀ a b, asc a b = 0%Z ↔ desc a b = 0%Z).
Proof.
  assert (Hasc : ∀ a b, Sort.comparator c ascending a b =
                        Sort.sortValue (Sort.navigate pointer a) (Sort.navigate pointer b)).
  { intros a b. unfold Sort.comparator. rewrite Hascending.
    destruct c; simpl in Hpath; by simplify_eq. }
  assert (Hdesc : ∀ a b, Sort.comparator c (Some true) a b =
                         (- Sort.comparator c ascending a b)%Z).
  { intros a b. unfold Sort.comparator at 1. simpl. unfold Sort.flip.
    rewrite Hasc. destruct c; simpl in Hpath; simplify_eq; lia. }
  simpl. split_and!.
  - intros a b Ha Hb. rewrite Hasc. unfold Sort.sortValue. by rewrite Ha, Hb.
  - intros a b Ha Hb. rewrite Hasc. unfold Sort.sortValue. by rewrite Ha, Hb.
  - intros a b. rewrite Hasc. apply sortValue_range.
  - done.
  - intros a b. rewrite Hdesc. lia.
Qed.

(** C8: [toString] fails exactly when the sort was built from a
    comparator function, and then it throws the error that the sort
    cannot be turned into a query string; built from a property path or
    a pointer it returns a string, which for a path and no serializer
    is "Sort(path, +)", or "Sort(path, -)" when descending. *)
Theorem C8_toString_not_serializable c descending serializer sortSerializer :
  let sort := Sort.createSort c descending serializer in
  ((∃ e, failed (Sort.toString sort sortSerializer) e) ↔
     ∃ f, c = Sort.Comparator f) ∧
  (∀ f, c = Sort.Comparator f →
     Sort.toString sort sortSerializer =
       Thrown (Error "Cannot parse this sort type to an RQL query string")) ∧
  ((∀ f, c ≠ Sort.Comparator f) →
     ∃ text, Sort.toString sort sortSerializer = Resolved text) ∧
  (∀ path, c = Sort.Property path → serializer = None → sortSerializer = None →
     Sort.toString sort sortSerializer =
       Resolved ("Sort(" +:+ path +:+ ", " +:+
                 (if Sort.truthy descending then "-" else "+") +:+ ")")).
Proof.
  simpl. split_and!.
  - split.
    + destruct c as [f|path|pointer]; simpl; [by eexists|..];
        intros [e [?|?]]; done.
    + intros [f ->]. simpl. eexists. by right.
  - by intros f ->.
  - intros Hc. destruct c as [f|path|pointer]; simpl; [|by eexists..].
    by destruct (Hc f).
  - by intros path -> -> ->.
Qed.
End SortFacts.

(** ** The store *)
Section StoreFacts.
Context {T : Type} `{!Items T}.
Implicit Types (s src : MemoryStore T) (item : T) (id : string).

(** Induction along the chain of sources. *)
Lemma source_chain_ind (P : MemoryStore T → Prop) :
  (∀ s, source s = None → P s) →
  (∀ s src, source s = Some src → P src → P s) →
  ∀ s, P s.
Proof.
  intros Hroot Hview. fix IH 1. intros [[src|] qs m d v live].
  - apply (Hview _ src); [reflexivity|apply IH].
  - by apply Hroot.
Qed.

(** *** The primitives *)

(** [_add] leaves the store as it found it and never resolves. *)
Lemma _add_store s item : (_add s item).1 = s.
Proof. unfold _add. by destruct (getId item). Qed.

Lemma _add_outcome s item :
  (item_id item = None ∧
   (_add s item).2 = Thrown (TypeError "Cannot read property 'id' of undefined")) ∨
  (is_Some (item_id item) ∧
   (_add s item).2 = Rejected (TypeError "Cannot read property 'map' of undefined")).
Proof.
  unfold _add, getId. destruct (item_id item) as [id|]; simpl.
  - right. by split; [eexists|].
  - by left.
Qed.

Lemma _add_version s item : version (_add s item).1 = version s.
Proof. by rewrite _add_store. Qed.

Lemma _delete_version s id : version (_delete s id).1 = S (version s).
Proof. done. Qed.

(** C10: on a store without source, [fetch] hands its argument to
    [_fetch], which never reads it: whatever list of queries is
    passed, the call does what [fetch()] does, and yields the store's
    own queries applied in order to its data. *)
Theorem C10_root_fetch_ignores_argument s (queries_arg : list (Query.t T))
    (Hroot : source s = None) :
  fetch s (Some queries_arg) = fetch s None ∧
  fetched (fetch s (Some queries_arg)) =
    Resolved (returned_contents (reduce_apply (queries s) (data s))).
Proof.
  destruct s as [src qs m d v live]. simpl in *. subst src.
  split; [done|]. unfold fetched, _fetch, returned_contents. simpl.
  by destruct (reduce_apply qs d).2.
Qed.

(** *** Versions under [propagateUpdate] *)
Section Propagation.
Variable _put : MemoryStore T → T → MemoryStore T * option error.
Hypothesis _put_version : ∀ s item, version (_put s item).1 = version s.

Lemma forEach_event_version_bounds events s :
  version s ≤ version (forEach_event _put events s).1 ≤
    version s + length (List.filter is_delete events).
Proof.
  revert s.
  induction events as [|event events IH]; intros s; [simpl; lia|].
  destruct event as [x i|x i j|id i|updates]; simpl.
  - pose proof (_add_version s x) as Hv.
    destruct (_add s x) as [s' c]. simpl in Hv.
    specialize (IH s'). destruct c; simpl; lia.
  - specialize (_put_version s x). destruct (_put s x) as [s' [e|]]; simpl in *.
    + lia.
    + specialize (IH s'). lia.
  - simpl. lia.
  - apply IH.
Qed.

Lemma forEach_event_version_completed events s :
  (forEach_event _put events s).2 = None →
  version (forEach_event _put events s).1 =
    version s + length (List.filter is_delete events).
Proof.
  revert s.
  induction events as [|event events IH]; intros s; [simpl; lia|].
  destruct event as [x i|x i j|id i|updates]; simpl.
  - pose proof (_add_version s x) as Hv.
    destruct (_add s x) as [s' c]. simpl in Hv.
    destruct c; simpl; try done; intros H; rewrite (IH _ H); lia.
  - specialize (_put_version s x). destruct (_put s x) as [s' [e|]];
      simpl in *; [done|].
    intros H. rewrite (IH _ H). lia.
  - done.
  - apply IH.
Qed.
End Propagation.

(** C3 (amended): on a batch of N events, [propagateUpdate] increments
    the version once and then adds N to it.  With no delete event in
    the batch the counter therefore ends N + 1 higher.  In general it
    ends between N + 1 and N + 1 + D higher, D being the number of
    delete events of the batch, and exactly N + 1 + D higher when no
    event made the loop stop: [_delete] increments the version
    itself. *)
Theorem C3_propagateUpdate_version
    (_put : MemoryStore T → T → MemoryStore T * option error)
    s (eventOrEvents : Update T)
    (H_put : ∀ s item, version (_put s item).1 = version s) :
  let r := propagateUpdate _put s eventOrEvents in
  let N := length (events_of eventOrEvents) in
  let D := length (List.filter is_delete (events_of eventOrEvents)) in
  (D = 0 → version r.1 = version s + N + 1) ∧
  (r.2 = None → version r.1 = version s + N + 1 + D) ∧
  version s + N + 1 ≤ version r.1 ≤ version s + N + 1 + D.
Proof.
  intros r N D. subst r. unfold propagateUpdate.
  set (s' := set_version _ _).
  assert (version s' = version s + N + 1) as Hs' by (simpl; lia).
  pose proof (forEach_event_version_bounds _put H_put (events_of eventOrEvents) s')
    as Hbounds.
  pose proof (forEach_event_version_completed _put H_put (events_of eventOrEvents) s')
    as Hdone.
  fold D in Hbounds, Hdone.
  destruct (forEach_event _put (events_of eventOrEvents) s') as [s'' thrown].
  simpl in *.
  split_and!; [intros HD|intros Hnone; specialize (Hdone Hnone)|..]; lia.
Qed.

(** *** Forwarding to the source *)

(** [delete] hands its arguments on as they are. *)
Lemma delete_forwarded s src id (rest : list string) :
  source s = Some src →
  delete s id rest =
    (set_source (delete src id rest).1 s, (delete src id rest).2).
Proof.
  intros H. destruct s as [? qs m d v live]. simpl in H. subst.
  simpl. by destruct (delete src id rest).
Qed.

(** [add] hands on one argument, the array of its arguments. *)
Lemma add_forwarded s src (x : T) (rest : list T) :
  source s = Some src →
  add s x rest =
    (set_source (add src (array (x :: rest)) []).1 s,
     (add src (array (x :: rest)) []).2).
Proof.
  intros H. destruct s as [? qs m d v live]. simpl in H. subst.
  simpl. by destruct (add src (array (x :: rest)) []).
Qed.

(** So does [put]. *)
Lemma put_forwarded put_root s src (itemsOrPatches : list T) :
  source s = Some src →
  put put_root s itemsOrPatches =
    (set_source (put put_root src [array itemsOrPatches]).1 s,
     (put put_root src [array itemsOrPatches]).2).
Proof.
  intros H. destruct s as [? qs m d v live]. simpl in H. subst.
  simpl. by destruct (put put_root src [array itemsOrPatches]).
Qed.

Lemma get_forwarded s src (ids : list string) :
  source s = Some src → get s ids = get src ids.
Proof. intros H. destruct s as [? qs m d v live]. simpl in H. by subst. Qed.

Lemma root_forwarded s src : source s = Some src → root s = root src.
Proof. intros H. destruct s as [? qs m d v live]. simpl in H. by subst. Qed.

Lemma root_set_source s src : root (set_source src s) = root src.
Proof. done. Qed.

(** *** What the calls do to the store that holds the items *)

Lemma add_root s (x : T) (rest : list T) :
  source s = None →
  add s x rest = (set_version (S (version s)) s, map_results (_add s x).2).
Proof.
  intros H. destruct s as [? qs m d v live]. simpl in *. subst.
  unfold _add. by destruct (getId x).
Qed.

Lemma delete_root s id (rest : list string) :
  source s = None →
  delete s id rest =
    (set_map (base.delete id (map s)) (set_version (S (S (version s))) s),
     Thrown (TypeError "Cannot read property 'splice' of undefined")).
Proof. intros H. destruct s as [? qs m d v live]. simpl in *. by subst. Qed.

Lemma get_throws s id (ids : list string) :
  get s (id :: ids) = Thrown (TypeError "Cannot read property 'map' of undefined").
Proof.
  induction s as [s Hroot|s src Hsrc IH] using source_chain_ind.
  - destruct s as [? qs m d v live]. simpl in *. by subst.
  - by rewrite (get_forwarded s src _ Hsrc).
Qed.

Lemma get_nothing s : get s [] = Resolved [].
Proof.
  induction s as [s Hroot|s src Hsrc IH] using source_chain_ind.
  - destruct s as [? qs m d v live]. simpl in *. by subst.
  - by rewrite (get_forwarded s src _ Hsrc).
Qed.

(** *** The two branches of [fetch] *)

(** Versions differ: the queries are applied to what the source's
    fetch yields, and the result is kept as [data]. *)
Lemma fetch_stale s src (queries_arg : option (list (Query.t T))) :
  source s = Some src → source src = None → isLive s = false →
  version s ≠ version src →
  let full := returned_contents (reduce_apply (queries src) (data src)) in
  let s' := (fetch s queries_arg).1 in
  fetched (fetch s queries_arg) =
    Resolved (returned_contents (reduce_apply (queries s) full)) ∧
  data s' = returned_contents (reduce_apply (queries s) full) ∧
  version s' = version src.
Proof.
  intros Hs Hsrc Hlive Hv.
  destruct s as [? qs m d v live]. destruct src as [? qs' m' d' v' live'].
  simpl in *. subst. rewrite bool_decide_eq_true_2 by done. simpl.
  unfold returned_contents at 3 4.
  destruct (reduce_apply qs' d') as [after [|l]]; simpl; done.
Qed.

(** Versions agree: [_fetch] applies the queries to [data], which is
    the sequence the other branch stored. *)
Lemma fetch_cached s src (queries_arg : option (list (Query.t T))) :
  source s = Some src → version s = version src →
  fetch s queries_arg = _fetch s queries_arg ∧
  fetched (fetch s queries_arg) =
    Resolved (returned_contents (reduce_apply (queries s) (data s))).
Proof.
  intros Hs Hv. destruct s as [? qs m d v live]. simpl in *. subst.
  rewrite bool_decide_eq_false_2 by auto.
  split; [done|]. unfold fetched, _fetch, returned_contents. simpl.
  by destruct (reduce_apply qs d).2.
Qed.

(** Versions differ and the view is live: [data] and [version] are
    assigned, and then the call of [buildMap] rejects the promise. *)
Lemma fetch_stale_live s src (queries_arg : option (list (Query.t T))) :
  source s = Some src → source src = None → isLive s = true →
  version s ≠ version src →
  let full := returned_contents (reduce_apply (queries src) (data src)) in
  (fetch s queries_arg).2 = Rejected (TypeError "this.getIds is not a function") ∧
  data (fetch s queries_arg).1 = returned_contents (reduce_apply (queries s) full) ∧
  version (fetch s queries_arg).1 = version src ∧
  map (fetch s queries_arg).1 = map s ∧
  queries (fetch s queries_arg).1 = queries s ∧
  ∃ src', source (fetch s queries_arg).1 = Some src' ∧ version src' = version src.
Proof.
  intros Hs Hsrc Hlive Hv.
  destruct s as [? qs m d v live]. destruct src as [? qs' m' d' v' live'].
  simpl in *. subst. rewrite bool_decide_eq_true_2 by done. simpl.
  unfold returned_contents at 2.
  destruct (reduce_apply qs' d') as [after [|l]]; simpl;
    split_and!; try done; by eexists.
Qed.
End StoreFacts.

(** ** The claims on the examples *)

(** C1: [delete] of the id of [b] on the store that holds [a], [b] and
    [c].  The call throws a TypeError where [_delete] reads
    [this.collection.splice]: by then the version has gone up by two
    and the entry of [b] has left the map, but nothing is spliced or
    numbered again, so [b] is still in the data and [c] keeps index 2.
    For an id that is not in the map the call ends in the same
    TypeError. *)
Theorem C1_delete_throws_and_keeps_the_item :
  let r := delete store_abc "b" [] in
  source store_abc = None ∧
  map store_abc !! "b" = Some {| item := item_b; index := 1 |} ∧
  r.2 = Thrown (TypeError "Cannot read property 'splice' of undefined") ∧
  data r.1 = [item_a; item_b; item_c] ∧
  map r.1 !! "b" = None ∧
  map r.1 !! "c" = Some {| item := item_c; index := 2 |} ∧
  version r.1 = version store_abc + 2 ∧
  map store_abc !! "z" = None ∧
  (delete store_abc "z" []).2 = r.2.
Proof. split_and!; vm_compute; reflexivity. Qed.

(** C2: a view of the range (1, 2) whose version is behind its
    source's.  The first fetch recomputes: it yields [b] and [c], keeps
    them as [data] and takes the source's version.  The second fetch
    finds the versions equal and goes through [_fetch], which applies
    the range to the kept sequence once more: it yields [c] alone, not
    the kept sequence. *)
Theorem C2_cached_fetch_applies_queries_again :
  let first := fetch range_view None in
  let second := fetch first.1 None in
  source range_view = Some store_abcd ∧
  version range_view ≠ version store_abcd ∧
  fetched first = Resolved [item_b; item_c] ∧
  data first.1 = [item_b; item_c] ∧
  version first.1 = version store_abcd ∧
  source first.1 = Some store_abcd ∧
  data second.1 = [item_b; item_c] ∧
  fetched second = Resolved [item_c] ∧
  fetched second ≠ Resolved (data first.1).
Proof.
  split_and!; try (vm_compute; reflexivity).
  - vm_compute. lia.
  - vm_compute. discriminate.
Qed.

(** C5: [add] of an item with the id of [a] on the store that holds
    [a], [b] and [c].  The promise is rejected with a TypeError, raised
    where the callback of [_add] reads [this.map], and not with the
    duplicate-id error; an item with a new id is rejected in the same
    way.  The data and the map are as before and the version has gone
    up by one.  [get] of the id of [a] then throws a TypeError where the
    callback of [_get] reads [this.map], so the item is not handed
    back. *)
Theorem C5_add_is_rejected_for_every_item :
  let r := add store_abc (record "a" (VNumber 7)) [] in
  source store_abc = None ∧
  map store_abc !! "a" = Some {| item := item_a; index := 0 |} ∧
  item_id (record "a" (VNumber 7)) = Some "a" ∧
  r.2 = Rejected (TypeError "Cannot read property 'map' of undefined") ∧
  r.2 ≠ Rejected (Error "Item added to collection item with duplicate ID") ∧
  map store_abc !! "d" = None ∧
  (add store_abc item_d []).2 = r.2 ∧
  data r.1 = data store_abc ∧
  map r.1 = map store_abc ∧
  version r.1 = S (version store_abc) ∧
  get r.1 ["a"] = Thrown (TypeError "Cannot read property 'map' of undefined").
Proof.
  split_and!; try (vm_compute; reflexivity).
  vm_compute. discriminate.
Qed.

(** C6: [add] and [put] called on a view of an empty store.  The view
    calls its source with one argument, the array of the arguments it
    was called with, where [delete] hands its arguments on as they are.
    A root [put] that answers with its arguments answers with that
    array, not with the item; and [add] of [null], which throws when
    called on the store itself, is rejected when called on the view,
    because the store is handed an array.  The view's own fields are
    not written. *)
Theorem C6_add_and_put_forward_one_array :
  let through := add empty_view item_a [] in
  source empty_view = Some empty_store ∧
  through = (set_source (add empty_store (array [item_a]) []).1 empty_view,
             (add empty_store (array [item_a]) []).2) ∧
  array [item_a] = VArray [item_a] ∧
  array [item_a] ≠ item_a ∧
  (put echoing_put empty_store [item_a]).2 = Resolved [item_a] ∧
  (put echoing_put empty_view [item_a]).2 = Resolved [VArray [item_a]] ∧
  (add empty_store VNull []).2 =
    Thrown (TypeError "Cannot read property 'id' of undefined") ∧
  (add empty_view VNull []).2 =
    Rejected (TypeError "Cannot read property 'map' of undefined") ∧
  delete empty_view "a" [] =
    (set_source (delete empty_store "a" []).1 empty_view,
     (delete empty_store "a" []).2) ∧
  data through.1 = data empty_view ∧ map through.1 = map empty_view ∧
  version through.1 = version empty_view.
Proof.
  split_and!; try (vm_compute; reflexivity).
  vm_compute. discriminate.
Qed.

(** C9: [get] of the id of [a] on the store that holds [a] under that
    id.  The call throws a TypeError where the callback of [ids.map]
    reads [this.map]: no copy of the item is made or returned. *)
Theorem C9_get_throws_for_a_present_id :
  source store_abc = None ∧
  map store_abc !! "a" = Some {| item := item_a; index := 0 |} ∧
  get store_abc ["a"] = Thrown (TypeError "Cannot read property 'map' of undefined") ∧
  (∀ items, get store_abc ["a"] ≠ Resolved items).
Proof.
  split_and!; try (vm_compute; reflexivity).
  intros items. vm_compute. discriminate.
Qed.

(** C3, as stated, fails on one add event: the version of the tracking
    view goes from 1 to 3, not to 2. *)
Lemma C3_one_event_two_increments :
  isLive tracking_view = true ∧
  length (events_of (ItemAdded item_d None)) = 1 ∧
  version (propagateUpdate throwing_put tracking_view (ItemAdded item_d None)).1 =
    version tracking_view + 2 ∧
  version (propagateUpdate throwing_put tracking_view (ItemAdded item_d None)).1 ≠
    version tracking_view + length (events_of (ItemAdded item_d None)).
Proof. split_and!; try (vm_compute; reflexivity). vm_compute. lia. Qed.

(** C4, as stated, fails on the array of 2 and 1: after the call the
    array passed in holds 1 and 2. *)
Lemma C4_apply_reorders_its_input :
  let sort := Sort.createSort by_number None None in
  (Sort.apply sort [VNumber 2; VNumber 1]).1 = [VNumber 1; VNumber 2] ∧
  (Sort.apply sort [VNumber 2; VNumber 1]).2 = Same ∧
  (Sort.apply sort [VNumber 2; VNumber 1]).1 ≠ [VNumber 2; VNumber 1].
Proof. split_and!; try (vm_compute; reflexivity). vm_compute. discriminate. Qed.

(** ** The theorems at work on the examples *)

Lemma C3_witness :
  version (propagateUpdate throwing_put tracking_view
             (BatchUpdate [ItemAdded item_d None; ItemUpdated item_a None None])).1 =
    version tracking_view + 2 + 1.
Proof.
  refine (proj1 (C3_propagateUpdate_version throwing_put tracking_view
                   (BatchUpdate [ItemAdded item_d None; ItemUpdated item_a None None])
                   _) _).
  - intros s x. reflexivity.
  - reflexivity.
Defined.

Lemma by_rank_consistent (l : list value) :
  consistent (Sort.comparator by_rank None) l.
Proof.
  unfold consistent, ordered, Sort.comparator, by_rank. simpl.
  split_and!; intros; lia.
Qed.

Lemma C4_witness :
  let sort := Sort.createSort by_rank None None in
  (Sort.apply sort [VNumber 2; VUndefined; VNumber 1]).1 ≡ₚ
    [VNumber 2; VUndefined; VNumber 1] ∧
  (∃ defined undefined,
     (Sort.apply sort [VNumber 2; VUndefined; VNumber 1]).1 = defined ++ undefined ∧
     Forall (fun x => is_undefined x = false) defined ∧
     Forall (fun x => is_undefined x = true) undefined ∧
     StronglySorted (ordered (Sort.comparator by_rank None)) defined) ∧
  Sort.apply sort (Sort.apply sort [VNumber 2; VUndefined; VNumber 1]).1 =
    Sort.apply sort [VNumber 2; VUndefined; VNumber 1].
Proof.
  apply (C4_apply_sorts_in_place by_rank None None
           [VNumber 2; VUndefined; VNumber 1]).
  apply by_rank_consistent.
Defined.

Lemma C7_witness :
  Sort.comparator (Sort.Property "v") None
    (record "a" VNull) (record "b" (VNumber 1)) = (-1)%Z ∧
  Sort.comparator (Sort.Property "v") (Some true)
    (record "a" VNull) (record "b" (VNumber 1)) = 1%Z.
Proof.
  assert (Hpath : Sort.pointer_of (Sort.Property "v") = Some "v") by reflexivity.
  destruct (C7_path_comparator (Sort.Property "v") "v" None Hpath eq_refl)
    as (H1 & _ & _ & H4 & _).
  split.
  - apply H1; reflexivity.
  - rewrite H4, H1; reflexivity.
Defined.

Lemma C8_witness :
  Sort.toString (Sort.createSort by_number None None) None =
    Thrown (Error "Cannot parse this sort type to an RQL query string") ∧
  Sort.toString (Sort.createSort (Sort.Property "v") (Some true) None) None =
    Resolved "Sort(v, -)".
Proof.
  split.
  - exact (proj1 (proj2 (C8_toString_not_serializable by_number None None None))
             _ eq_refl).
  - exact (proj2 (proj2 (proj2
             (C8_toString_not_serializable (Sort.Property "v") (Some true) None None)))
             "v" eq_refl eq_refl eq_refl).
Defined.

Lemma C10_witness :
  fetch store_abc (Some [rangeFactory 1 1]) = fetch store_abc None ∧
  fetched (fetch store_abc (Some [rangeFactory 1 1])) =
    Resolved [item_a; item_b; item_c].
Proof.
  exact (C10_root_fetch_ignores_argument store_abc [rangeFactory 1 1] eq_refl).
Defined.

(** * Further properties of the code *)

(** ** Construction *)
Section ConstructorFacts.
Context {T : Type} `{!Items T}.
Implicit Types (s : MemoryStore T).

(** X1: no [MemoryStore] comes out of its constructor, and none out of
    [query], [filter], [range] and [sort], which end in the
    constructor: without options the constructor throws where it reads
    [options.data], and with options where [buildMap] calls [getIds],
    which the class does not define. *)
Theorem X1_no_store_is_constructed (options : option (MemoryOptions T)) s
    (q : Query.t T) :
  (∃ message, MemoryStore_constructor options = Thrown (TypeError message)) ∧
  (∀ given : MemoryOptions T, MemoryStore_constructor (Some given) =
              Thrown (TypeError "this.getIds is not a function")) ∧
  query s q = Thrown (TypeError "this.getIds is not a function").
Proof.
  split_and!; [|done..].
  destruct options as [given|]; by eexists.
Qed.
End ConstructorFacts.

(** ** Adding, deleting and reading *)
Section MutationFacts.
Context {T : Type} `{!Items T}.
Implicit Types (s src : MemoryStore T) (id : string).

Lemma add_leaves_the_root s (x : T) (rest : list T) :
  root (add s x rest).1 = set_version (S (version (root s))) (root s).
Proof.
  revert x rest.
  induction s as [s Hroot|s src Hsrc IH] using source_chain_ind; intros x rest.
  - rewrite (add_root s x rest Hroot). simpl.
    destruct s as [? qs m d v live]. simpl in *. by subst.
  - rewrite (add_forwarded s src x rest Hsrc). cbn [fst].
    rewrite root_set_source, IH. by rewrite (root_forwarded s src Hsrc).
Qed.

Lemma delete_leaves_the_data s id (rest : list string) :
  (delete s id rest).2 =
    Thrown (TypeError "Cannot read property 'splice' of undefined") ∧
  root (delete s id rest).1 =
    set_map (base.delete id (map (root s)))
      (set_version (S (S (version (root s)))) (root s)).
Proof.
  induction s as [s Hroot|s src Hsrc [IHthrown IHroot]] using source_chain_ind.
  - rewrite (delete_root s id rest Hroot). simpl. split; [done|].
    destruct s as [? qs m d v live]. simpl in *. by subst.
  - rewrite (delete_forwarded s src id rest Hsrc). cbn [fst snd].
    rewrite root_set_source, IHroot. by rewrite (root_forwarded s src Hsrc).
Qed.

(** X5: no call of [add] stores an item, on a store or through any
    chain of views: the store at the end of the chain is left with its
    data and its map as they were and its version raised by one.  On
    the store itself the call throws for the items null and undefined
    and is rejected with a TypeError for every other item. *)
Theorem X5_add_stores_nothing s (x : T) (rest : list T) :
  let r := add s x rest in
  root r.1 = set_version (S (version (root s))) (root s) ∧
  data (root r.1) = data (root s) ∧
  map (root r.1) = map (root s) ∧
  (source s = None → item_id x = None →
   r.2 = Thrown (TypeError "Cannot read property 'id' of undefined")) ∧
  (source s = None → is_Some (item_id x) →
   r.2 = Rejected (TypeError "Cannot read property 'map' of undefined")).
Proof.
  simpl. rewrite add_leaves_the_root. split_and!; try done.
  - intros Hroot Hx. rewrite (add_root s x rest Hroot). simpl.
    destruct (_add_outcome s x) as [[_ ->]|[[id Hid] _]]; [done|congruence].
  - intros Hroot [id Hid]. rewrite (add_root s x rest Hroot). simpl.
    destruct (_add_outcome s x) as [[Hnone _]|[_ ->]]; [congruence|done].
Qed.

(** X7: no call of [delete] takes an item out of the data, on a store
    or through any chain of views: the call throws a TypeError, and the
    store at the end of the chain is left with its data as they were,
    its map without the entry of the id and its version raised by
    two. *)
Theorem X7_delete_keeps_the_item s id (rest : list string) :
  let r := delete s id rest in
  r.2 = Thrown (TypeError "Cannot read property 'splice' of undefined") ∧
  root r.1 =
    set_map (base.delete id (map (root s)))
      (set_version (S (S (version (root s)))) (root s)) ∧
  data (root r.1) = data (root s) ∧
  map (root r.1) !! id = None.
Proof.
  simpl. destruct (delete_leaves_the_data s id rest) as [Hthrown Hroot].
  rewrite Hroot. split_and!; try done. simpl. apply lookup_delete_eq.
Qed.

(** X8: on a store without source the version goes up by one on every
    [add] and by two on every [delete], however the call ends. *)
Theorem X8_versions_of_add_and_delete s (x : T) (rest : list T) id
    (ids : list string)
    (Hroot : source s = None) :
  version (add s x rest).1 = S (version s) ∧
  version (delete s id ids).1 = S (S (version s)).
Proof.
  by rewrite (add_root s x rest Hroot), (delete_root s id ids Hroot).
Qed.

(** X9: no call of [add] or [delete] is fulfilled, on a store or
    through any chain of views: the primitive fails, and had it
    resolved, the callback would map over the single event it resolves
    with, which rejects the promise as well. *)
Theorem X9_add_and_delete_are_never_fulfilled s :
  (∀ (x : T) (rest items : list T), (add s x rest).2 ≠ Resolved items) ∧
  (∀ id (rest ids : list string), (delete s id rest).2 ≠ Resolved ids).
Proof.
  induction s as [s Hroot|s src Hsrc [IHadd IHdelete]] using source_chain_ind.
  - split.
    + intros x rest items. rewrite (add_root s x rest Hroot). simpl.
      by destruct (_add s x).2.
    + intros id rest ids. by rewrite (delete_root s id rest Hroot).
  - split.
    + intros x rest items. rewrite (add_forwarded s src x rest Hsrc). apply IHadd.
    + intros id rest ids. rewrite (delete_forwarded s src id rest Hsrc).
      apply IHdelete.
Qed.

(** X23: [get] never hands back an item, on a store or through any
    chain of views: called with one id or more it throws a TypeError,
    whether the ids are in the map or not, and called with none it
    resolves with the empty array. *)
Theorem X23_get_never_yields_an_item s :
  (∀ id (ids : list string),
     get s (id :: ids) = Thrown (TypeError "Cannot read property 'map' of undefined")) ∧
  get s [] = Resolved [] ∧
  (∀ (ids : list string) (x : T) (items : list T), get s ids ≠ Resolved (x :: items)).
Proof.
  split_and!.
  - apply get_throws.
  - apply get_nothing.
  - intros [|id ids] x items; [by rewrite get_nothing|by rewrite get_throws].
Qed.
End MutationFacts.

(** ** [fetch] *)
Section FetchFacts.
Context {T : Type} `{!Items T}.
Implicit Types (s src : MemoryStore T).

(** X11: a fetch that resolves leaves the store with the version of
    its source, so the fetch after it is the store's own [_fetch]: the
    source is not read again until its version moves. *)
Theorem X11_fetch_leaves_the_view_in_step s src
    (queries_arg : option (list (Query.t T))) (array : Returned T)
    (Hsource : source s = Some src)
    (Hresolved : (fetch s queries_arg).2 = Resolved array) :
  ∃ src', source (fetch s queries_arg).1 = Some src' ∧
    version (fetch s queries_arg).1 = version src' ∧
    ∀ queries_arg', fetch (fetch s queries_arg).1 queries_arg' =
                    _fetch (fetch s queries_arg).1 queries_arg'.
Proof.
  assert (∃ src', source (fetch s queries_arg).1 = Some src' ∧
                  version (fetch s queries_arg).1 = version src')
    as (src' & Hs' & Hv').
  { destruct s as [? qs m d v live]. simpl in Hsource. subst.
    revert Hresolved. simpl. case_bool_decide as Hv.
    - destruct (fetch src (Some qs)) as [src1 [full|e|e]]; simpl; try done.
      destruct live; simpl; [done|].
      intros _. by eexists.
    - intros _. exists src. simpl. split; [done|].
      destruct (decide (v = version src)); [done|]. exfalso. auto. }
  exists src'. split_and!; [done|done|].
  intros q. by apply (fetch_cached _ src' q Hs' Hv').
Qed.

(** X12: the recomputing fetch of a live view of a store without
    source is rejected with a TypeError, raised by [buildMap] after the
    recomputed sequence and the source's version have been assigned:
    the map is left as it was, and the next fetch, finding the versions
    equal, resolves from the kept sequence with the queries applied to
    it. *)
Theorem X12_live_fetch_is_rejected s src (queries_arg : option (list (Query.t T)))
    (Hsource : source s = Some src)
    (Hroot : source src = None)
    (Hlive : isLive s = true)
    (Hstale : version s ≠ version src) :
  let full := returned_contents (reduce_apply (queries src) (data src)) in
  let kept := returned_contents (reduce_apply (queries s) full) in
  let r := fetch s queries_arg in
  r.2 = Rejected (TypeError "this.getIds is not a function") ∧
  data r.1 = kept ∧
  version r.1 = version src ∧
  map r.1 = map s ∧
  ∀ queries_arg',
    fetched (fetch r.1 queries_arg') =
      Resolved (returned_contents (reduce_apply (queries s) kept)).
Proof.
  simpl.
  destruct (fetch_stale_live s src queries_arg Hsource Hroot Hlive Hstale)
    as (Hr & Hd & Hv & Hm & Hq & src' & Hs' & Hv').
  split_and!; try done.
  intros q.
  destruct (fetch_cached (fetch s queries_arg).1 src' q Hs') as [_ Hnext];
    [congruence|].
  by rewrite Hnext, Hq, Hd.
Qed.
End FetchFacts.

(** ** Sorting *)
Section SortedFacts.
Context {A : Type} (R : A → A → Prop).

Lemma StronglySorted_lookup_lt (l : list A) i j (x y : A) :
  StronglySorted R l → i < j → l !! i = Some x → l !! j = Some y → R x y.
Proof.
  intros Hl. revert i j. induction Hl as [|z l Hl IH Hz]; intros i j Hij Hx Hy; [done|].
  destruct j as [|j]; [lia|]. simpl in Hy. destruct i as [|i]; simpl in Hx.
  - simplify_eq. by eapply Forall_lookup_1 in Hz.
  - apply (IH i j); [lia|done|done].
Qed.
End SortedFacts.

Section SortOrderFacts.
Context {T JsonPointer : Type} `{!Sort.Env T JsonPointer} `{!Undefined T}.
Implicit Types (c : Sort.ComparatorOrProperty T JsonPointer).

Lemma path_comparator c (pointer : JsonPointer) (ascending : option bool) :
  Sort.pointer_of c = Some pointer → Sort.truthy ascending = false →
  ∀ a b, Sort.comparator c ascending a b =
         Sort.sortValue (Sort.navigate pointer a) (Sort.navigate pointer b).
Proof.
  intros Hpath Hasc a b. unfold Sort.comparator. rewrite Hasc.
  destruct c; simpl in Hpath; by simplify_eq.
Qed.

Lemma path_comparator_descending c (pointer : JsonPointer) (descending : option bool) :
  Sort.pointer_of c = Some pointer → Sort.truthy descending = true →
  ∀ a b, Sort.comparator c descending a b =
         (- Sort.sortValue (Sort.navigate pointer a) (Sort.navigate pointer b))%Z.
Proof.
  intros Hpath Hdesc a b. unfold Sort.comparator. rewrite Hdesc. unfold Sort.flip.
  destruct c; simpl in Hpath; simplify_eq; lia.
Qed.

Lemma sortValue_swap a b :
  Sort.one_way a b → Sort.sortValue b a = (- Sort.sortValue a b)%Z.
Proof.
  intros Hway. unfold Sort.sortValue.
  destruct (loose_null a) eqn:Ha, (loose_null b) eqn:Hb; simpl; try done.
  destruct (Sort.js_lt a b) eqn:Hab.
  - by rewrite (Hway Ha Hb Hab).
  - by destruct (Sort.js_lt b a).
Qed.

Lemma sortValue_positive a b :
  Sort.one_way a b →
  (0 < Sort.sortValue a b)%Z ↔
  (loose_null a = false ∧ loose_null b = true) ∨
  (loose_null a = false ∧ loose_null b = false ∧ Sort.js_lt b a = true).
Proof.
  intros Hway. unfold Sort.sortValue.
  destruct (loose_null a) eqn:Ha, (loose_null b) eqn:Hb; simpl.
  - split; [lia|]. by intros [[? ?]|(? & ? & ?)].
  - split; [lia|]. by intros [[? ?]|(? & ? & ?)].
  - split; [by left|lia].
  - destruct (Sort.js_lt a b) eqn:Hab.
    + rewrite (Hway Ha Hb Hab). split; [lia|].
      by intros [[? ?]|(? & ? & ?)].
    + destruct (Sort.js_lt b a).
      * split; [by right|lia].
      * split; [lia|]. by intros [[? ?]|(? & ? & ?)].
Qed.

Lemma sortValue_le_trans (a b d : value) :
  Sort.one_way a b → Sort.one_way b d → Sort.one_way a d →
  Sort.between d b a →
  (Sort.sortValue a b <= 0)%Z → (Sort.sortValue b d <= 0)%Z →
  (Sort.sortValue a d <= 0)%Z.
Proof.
  intros Hab1 Hbd1 Had1 Hneg Hab Hbd.
  destruct (decide (0 < Sort.sortValue a d)%Z) as [Had|]; [|lia].
  exfalso. apply (sortValue_positive a d Had1) in Had.
  assert (¬ (0 < Sort.sortValue a b)%Z) as Hab' by lia.
  assert (¬ (0 < Sort.sortValue b d)%Z) as Hbd' by lia.
  rewrite (sortValue_positive a b Hab1) in Hab'.
  rewrite (sortValue_positive b d Hbd1) in Hbd'.
  destruct Had as [[Ha Hd]|(Ha & Hd & Hda)].
  - destruct (loose_null b) eqn:Hb; naive_solver.
  - destruct (loose_null b) eqn:Hb; [naive_solver|].
    destruct (Hneg Hd Hb Ha Hda); naive_solver.
Qed.
End SortOrderFacts.

Section PathOrderFacts.
Context {T JsonPointer : Type} `{!Sort.Env T JsonPointer} `{!Undefined T}.
Implicit Types (c : Sort.ComparatorOrProperty T JsonPointer).

(** Where [<] is a strict weak order on the values at the path, the
    comparator of the path is a consistent comparison function. *)
Lemma path_comparator_consistent c (pointer : JsonPointer) (descending : option bool)
    (data : list T) :
  Sort.pointer_of c = Some pointer →
  Sort.strict_weak_order pointer data →
  consistent (Sort.comparator c descending) data.
Proof.
  intros Hpath [Hway Hbetween].
  assert (∀ x y, compared data x → compared data y →
            Sort.sortValue (Sort.navigate pointer y) (Sort.navigate pointer x) =
            (- Sort.sortValue (Sort.navigate pointer x) (Sort.navigate pointer y))%Z)
    as Hswap by (intros x y Hx Hy; by apply sortValue_swap, Hway).
  assert (∀ x y z, compared data x → compared data y → compared data z →
            (Sort.sortValue (Sort.navigate pointer x) (Sort.navigate pointer y) <= 0)%Z →
            (Sort.sortValue (Sort.navigate pointer y) (Sort.navigate pointer z) <= 0)%Z →
            (Sort.sortValue (Sort.navigate pointer x) (Sort.navigate pointer z) <= 0)%Z)
    as Htrans.
  { intros x y z Hx Hy Hz.
    apply sortValue_le_trans; [by apply Hway..|by apply Hbetween]. }
  unfold consistent, ordered.
  destruct (Sort.truthy descending) eqn:Hd.
  - split_and!.
    + intros x Hx. rewrite (path_comparator_descending c pointer descending Hpath Hd).
      pose proof (Hswap x x Hx Hx). lia.
    + intros x y Hx Hy.
      rewrite !(path_comparator_descending c pointer descending Hpath Hd).
      rewrite (Hswap x y Hx Hy). lia.
    + intros x y z Hx Hy Hz.
      rewrite !(path_comparator_descending c pointer descending Hpath Hd).
      intros Hxy Hyz. pose proof (Htrans z y x Hz Hy Hx) as H'.
      rewrite (Hswap y z Hy Hz), (Hswap x y Hx Hy), (Hswap x z Hx Hz) in H'. lia.
  - split_and!.
    + intros x Hx. rewrite (path_comparator c pointer descending Hpath Hd).
      pose proof (Hswap x x Hx Hx). lia.
    + intros x y Hx Hy. rewrite !(path_comparator c pointer descending Hpath Hd).
      rewrite (Hswap x y Hx Hy). lia.
    + intros x y z Hx Hy Hz. rewrite !(path_comparator c pointer descending Hpath Hd).
      by apply Htrans.
Qed.

(** Two defined elements of a sorted array, taken in the order in which
    they stand, are in the comparator's order. *)
Lemma Array_sort_lookup_lt (cmp : T → T → Z) (data : list T) i j (x y : T) :
  consistent cmp data → i < j →
  Array_sort cmp data !! i = Some x → Array_sort cmp data !! j = Some y →
  is_undefined x = false → is_undefined y = false →
  ordered cmp x y.
Proof.
  intros Hc Hij Hx Hy Hxd Hyd.
  destruct (Array_sort_shape cmp data Hc) as (defined & undefined & Heq & _ & Hu & Hs).
  rewrite Heq in Hx, Hy.
  assert (∀ k z, (defined ++ undefined) !! k = Some z → is_undefined z = false →
                 defined !! k = Some z) as Hin.
  { intros k z Hk Hz. apply lookup_app_Some in Hk as [Hk|[_ Hk]]; [done|].
    apply (Forall_lookup_1 _ _ _ _ Hu) in Hk. congruence. }
  apply (StronglySorted_lookup_lt _ defined i j x y Hs Hij); by apply Hin.
Qed.
End PathOrderFacts.

Section SortTheorems.
Context {T JsonPointer : Type} `{!Sort.Env T JsonPointer} `{!Undefined T}.
Implicit Types (c : Sort.ComparatorOrProperty T JsonPointer).
Implicit Types (serializer : option (Sort.Properties T JsonPointer → string)).

(** X13: when [<] never holds both ways between two values, the
    comparator of a sort built from a property path changes sign when
    its arguments are exchanged, and the descending comparator is the
    ascending one with the arguments exchanged. *)
Theorem X13_path_comparator_exchanged c (pointer : JsonPointer)
    (ascending : option bool)
    (Hpath : Sort.pointer_of c = Some pointer)
    (Hascending : Sort.truthy ascending = false)
    (Hasymmetric : ∀ a b, Sort.js_lt a b = true → Sort.js_lt b a = false) :
  ∀ a b,
    Sort.comparator c ascending b a = (- Sort.comparator c ascending a b)%Z ∧
    Sort.comparator c (Some true) a b = Sort.comparator c ascending b a.
Proof.
  intros a b.
  rewrite !(path_comparator c pointer ascending Hpath Hascending).
  rewrite (path_comparator_descending c pointer (Some true) Hpath eq_refl).
  by rewrite (sortValue_swap (Sort.navigate pointer a) (Sort.navigate pointer b))
    by (intros _ _; apply Hasymmetric).
Qed.

(** X14: when [<] is a strict weak order on the values found at the
    path in the defined elements of the array, a sort built from a
    property path leaves those elements in order: ascending, an element
    never stands before one that compares lower, and the elements whose
    value at the path is null or undefined come before the others;
    descending, it is the other way round. *)
Theorem X14_path_sort_orders_the_array c (pointer : JsonPointer)
    (descending : option bool) serializer (data : list T)
    (Hpath : Sort.pointer_of c = Some pointer)
    (Horder : Sort.strict_weak_order pointer data) :
  let sorted := (Sort.apply (Sort.createSort c descending serializer) data).1 in
  let at_path x := Sort.navigate pointer x in
  sorted ≡ₚ data ∧
  ∀ i j x y, i < j → sorted !! i = Some x → sorted !! j = Some y →
    is_undefined x = false → is_undefined y = false →
    if Sort.truthy descending
    then (0 <= Sort.sortValue (at_path x) (at_path y))%Z ∧
         (loose_null (at_path x) = true → loose_null (at_path y) = true)
    else (Sort.sortValue (at_path x) (at_path y) <= 0)%Z ∧
         (loose_null (at_path y) = true → loose_null (at_path x) = true).
Proof.
  simpl. split; [apply Array_sort_perm|].
  intros i j x y Hij Hx Hy Hxd Hyd.
  pose proof (path_comparator_consistent c pointer descending data Hpath Horder) as Hc.
  pose proof (Array_sort_lookup_lt _ data i j x y Hc Hij Hx Hy Hxd Hyd) as Hxy.
  unfold ordered in Hxy. destruct (Sort.truthy descending) eqn:Hd.
  - rewrite (path_comparator_descending c pointer descending Hpath Hd) in Hxy.
    split; [lia|]. intros Hnull.
    destruct (loose_null (Sort.navigate pointer y)) eqn:Hy'; [done|].
    exfalso. unfold Sort.sortValue in Hxy. rewrite Hnull, Hy' in Hxy. simpl in Hxy. lia.
  - rewrite (path_comparator c pointer descending Hpath Hd) in Hxy.
    split; [lia|]. intros Hnull.
    destruct (loose_null (Sort.navigate pointer x)) eqn:Hx'; [done|].
    exfalso. unfold Sort.sortValue in Hxy. rewrite Hnull, Hx' in Hxy. simpl in Hxy. lia.
Qed.

Context `{!Items T}.
Implicit Types (s src : MemoryStore T).

Lemma reduce_apply_sort c descending serializer (data : list T) :
  reduce_apply [Query_of_Sort (Sort.createSort c descending serializer)] data =
    (Array_sort (Sort.comparator c descending) data, Same).
Proof. done. Qed.

(** X15: on a store without source whose one query is a sort, [fetch]
    sorts the store's own data in place: the data it leaves are the
    sorted sequence, which is what it yields, and the map still holds
    the positions from before. *)
Theorem X15_fetch_sorts_the_data_in_place c descending serializer s
    (queries_arg : option (list (Query.t T)))
    (Hroot : source s = None)
    (Hqueries : queries s = [Query_of_Sort (Sort.createSort c descending serializer)]) :
  let sorted := Array_sort (Sort.comparator c descending) (data s) in
  (fetch s queries_arg).2 = Resolved Same ∧
  fetched (fetch s queries_arg) = Resolved sorted ∧
  data (fetch s queries_arg).1 = sorted ∧
  map (fetch s queries_arg).1 = map s ∧
  version (fetch s queries_arg).1 = version s.
Proof.
  destruct s as [src qs m d v live]. simpl in *. subst. done.
Qed.


End SortTheorems.

(** ** Propagation *)
Section PropagationFacts.
Context {T : Type} `{!Items T}.
Implicit Types (s : MemoryStore T) (id : string).
Variable _put : MemoryStore T → T → MemoryStore T * option error.

Lemma forEach_event_adds_store (events : list (Update T)) (items : list T) s :
  Forall2 (fun event x => ∃ i, event = ItemAdded x i) events items →
  (forEach_event _put events s).1 = s.
Proof.
  induction 1 as [|event x events items [i ->] _ IH]; simpl; [done|].
  pose proof (_add_store s x) as Hs. destruct (_add s x) as [s' c].
  simpl in Hs. subst s'. by destruct (thrown_of c).
Qed.

Lemma forEach_event_adds (events : list (Update T)) (items : list T) s :
  Forall2 (fun event x => ∃ i, event = ItemAdded x i) events items →
  Forall (fun x => is_Some (item_id x)) items →
  forEach_event _put events s = (s, None).
Proof.
  induction 1 as [|event x events items [i ->] _ IH]; simpl; [done|].
  intros [Hx Hitems]%Forall_cons.
  pose proof (_add_store s x) as Hs.
  destruct (_add_outcome s x) as [[Hnone _]|[_ Hc]];
    [rewrite Hnone in Hx; by destruct Hx|].
  destruct (_add s x) as [s' c]. simpl in *. subst. by apply IH.
Qed.

Lemma forEach_event_batches (events : list (Update T)) s :
  Forall (fun event => is_batch event = true) events →
  forEach_event _put events s = (s, None).
Proof.
  induction 1 as [|event events Hb _ IH]; simpl; [done|].
  destruct event; try done.
Qed.

(** X18: a batch made of Added events stores nothing: the store is
    left with its data and its map as they were and its version raised
    by the number of events plus one; unless one of the items is null
    or undefined, nothing is thrown. *)
Theorem X18_added_events_store_nothing s (eventOrEvents : Update T) (items : list T)
    (Hadds : Forall2 (fun event x => ∃ i, event = ItemAdded x i)
               (events_of eventOrEvents) items) :
  (propagateUpdate _put s eventOrEvents).1 =
    set_version (S (version s) + length items) s ∧
  (Forall (fun x => is_Some (item_id x)) items →
   (propagateUpdate _put s eventOrEvents).2 = None).
Proof.
  unfold propagateUpdate. split.
  - rewrite (forEach_event_adds_store _ items _ Hadds).
    simpl. by rewrite (Forall2_length _ _ _ Hadds).
  - intros Hitems. by rewrite (forEach_event_adds _ items _ Hadds Hitems).
Qed.

(** X19: a Deleted event for an id that is not in the map makes
    [propagateUpdate] throw a TypeError; the events after it in the
    batch are not applied, the data and the map stay as they were, and
    the version has gone up by the number of events plus two. *)
Theorem X19_deleted_event_for_absent_id s id (index : option nat)
    (rest : list (Update T))
    (Habsent : map s !! id = None) :
  let r := propagateUpdate _put s (BatchUpdate (ItemDeleted id index :: rest)) in
  r.2 = Some (TypeError "Cannot read property 'splice' of undefined") ∧
  data r.1 = data s ∧ map r.1 = map s ∧
  version r.1 = version s + length (ItemDeleted id index :: rest) + 2.
Proof.
  unfold propagateUpdate. simpl.
  split_and!; try done; [by apply delete_id|lia].
Qed.



(** X21: the batches inside a batch are counted in the version and not
    applied: a batch made of batches leaves the store as it was, with
    the version raised by the number of events plus one. *)
Theorem X21_batches_in_a_batch s (events : list (Update T))
    (Hbatches : Forall (fun event => is_batch event = true) events) :
  propagateUpdate _put s (BatchUpdate events) =
    (set_version (S (version s) + length events) s, None).
Proof.
  unfold propagateUpdate. simpl. by rewrite forEach_event_batches.
Qed.
End PropagationFacts.

(** ** The further properties at work on the examples *)

Lemma rank_lt_asymmetric (a b : value) :
  (rank a <? rank b)%Z = true → (rank b <? rank a)%Z = false.
Proof. intros H. apply Z.ltb_lt in H. apply Z.ltb_ge. lia. Qed.

(** The order of numbers, as [<] has it, on the values of three
    records. *)
Lemma numbers_strict_weak_order :
  Sort.strict_weak_order "v"
    [record "a" (VNumber 2); record "b" VNull; VUndefined; record "c" (VNumber 1)].
Proof.
  assert (∀ x, compared [record "a" (VNumber 2); record "b" VNull; VUndefined;
                          record "c" (VNumber 1)] x →
               loose_null (Sort.navigate "v" x) = false →
               ∃ n, Sort.navigate "v" x = VNumber n) as Hnumber.
  { intros x [Hx Hdefined] Hnull. set_unfold in Hx.
    destruct Hx as [->|[->|[->|[->|[]]]]]; try done; by eexists. }
  split.
  - intros x y Hx Hy Hxn Hyn.
    destruct (Hnumber x Hx Hxn) as [m ->], (Hnumber y Hy Hyn) as [n ->]. simpl.
    intros H. apply Z.ltb_lt in H. apply Z.ltb_ge. lia.
  - intros x y z Hx Hy Hz Hxn Hyn Hzn.
    destruct (Hnumber x Hx Hxn) as [m ->], (Hnumber y Hy Hyn) as [n ->],
      (Hnumber z Hz Hzn) as [k ->]. simpl.
    intros H. apply Z.ltb_lt in H.
    destruct (decide (m < n)%Z) as [Hmn|Hmn].
    + left. by apply Z.ltb_lt.
    + right. apply Z.ltb_lt. lia.
Qed.

(** A comparator that is negative on every pair is not a consistent
    comparison function, as soon as the array has a defined element. *)
Lemma always_before_not_consistent :
  ¬ consistent (Sort.comparator always_before None) [VNumber 1].
Proof.
  intros (Hreflexive & _ & _).
  assert (compared [VNumber 1] (VNumber 1)) as Hc
    by (split; [apply list_elem_of_here|done]).
  specialize (Hreflexive _ Hc). vm_compute in Hreflexive. discriminate.
Qed.

Lemma X1_witness :
  MemoryStore_constructor (Some options_abc) =
    Thrown (TypeError "this.getIds is not a function") ∧
  query store_abc (rangeFactory 1 2) =
    Thrown (TypeError "this.getIds is not a function").
Proof.
  destruct (X1_no_store_is_constructed None store_abc (rangeFactory 1 2))
    as (_ & Hgiven & Hquery).
  split; [exact (Hgiven options_abc)|exact Hquery].
Defined.

Lemma X5_witness :
  root (add empty_view item_a []).1 = set_version 2 empty_store ∧
  (add store_abc item_d []).2 =
    Rejected (TypeError "Cannot read property 'map' of undefined").
Proof.
  split.
  - exact (proj1 (X5_add_stores_nothing empty_view item_a [])).
  - refine (proj2 (proj2 (proj2 (proj2 (X5_add_stores_nothing store_abc item_d []))))
              eq_refl _).
    eexists. reflexivity.
Defined.

Lemma X8_witness :
  version (add store_abc item_a []).1 = 2 ∧
  version (delete store_abc "z" []).1 = 3.
Proof. exact (X8_versions_of_add_and_delete store_abc item_a [] "z" [] eq_refl). Defined.

Lemma X11_witness :
  fetch (fetch range_view None).1 None = _fetch (fetch range_view None).1 None.
Proof.
  assert (Hresolved : (fetch range_view None).2 = Resolved Same)
    by (vm_compute; reflexivity).
  destruct (X11_fetch_leaves_the_view_in_step range_view store_abcd None Same
              eq_refl Hresolved) as (src' & _ & _ & Hnext).
  exact (Hnext None).
Defined.

Lemma X12_witness :
  (fetch live_range_view None).2 =
    Rejected (TypeError "this.getIds is not a function") ∧
  data (fetch live_range_view None).1 = [item_b; item_c] ∧
  map (fetch live_range_view None).1 = map live_range_view ∧
  fetched (fetch (fetch live_range_view None).1 None) = Resolved [item_c].
Proof.
  assert (Hstale : version live_range_view ≠ version store_abcd)
    by (vm_compute; lia).
  destruct (X12_live_fetch_is_rejected live_range_view store_abcd None eq_refl
              eq_refl eq_refl Hstale) as (Hr & Hd & _ & Hm & Hnext).
  split_and!; [exact Hr|exact Hd|exact Hm|exact (Hnext None)].
Defined.

Lemma X13_witness :
  Sort.comparator (Env0:=rank_Env) (Sort.Property "v") (Some true)
    (record "a" (VNumber 1)) (record "b" (VNumber 2)) =
  Sort.comparator (Env0:=rank_Env) (Sort.Property "v") None
    (record "b" (VNumber 2)) (record "a" (VNumber 1)).
Proof.
  assert (Hpath : Sort.pointer_of (Env0:=rank_Env) (Sort.Property "v") = Some "v")
    by reflexivity.
  exact (proj2 (X13_path_comparator_exchanged (H:=rank_Env) (Sort.Property "v") "v"
                  None Hpath eq_refl rank_lt_asymmetric _ _)).
Defined.

Lemma X14_witness :
  let data := [record "a" (VNumber 2); record "b" VNull; VUndefined;
               record "c" (VNumber 1)] in
  let sorted := (Sort.apply (Sort.createSort (Sort.Property "v") None None) data).1 in
  sorted ≡ₚ data ∧
  (Sort.sortValue (Sort.navigate "v" (record "b" VNull))
     (Sort.navigate "v" (record "c" (VNumber 1))) <= 0)%Z ∧
  (Sort.sortValue (Sort.navigate "v" (record "c" (VNumber 1)))
     (Sort.navigate "v" (record "a" (VNumber 2))) <= 0)%Z.
Proof.
  assert (Hpath : Sort.pointer_of (Sort.Property "v") = Some "v") by reflexivity.
  destruct (X14_path_sort_orders_the_array (Sort.Property "v") "v"
              None None _ Hpath numbers_strict_weak_order) as [Hperm Horder].
  split_and!.
  - exact Hperm.
  - refine (proj1 (Horder 0 1 (record "b" VNull) (record "c" (VNumber 1)) _ _ _ _ _));
      [lia|reflexivity..].
  - refine (proj1 (Horder 1 2 (record "c" (VNumber 1)) (record "a" (VNumber 2))
                     _ _ _ _ _)); [lia|reflexivity..].
Defined.

Lemma X15_witness :
  data (fetch sorting_store None).1 = [VNumber 1; VNumber 2; VNumber 3] ∧
  map (fetch sorting_store None).1 = map sorting_store.
Proof.
  destruct (X15_fetch_sorts_the_data_in_place by_rank None None sorting_store None
              eq_refl eq_refl) as (_ & _ & Hdata & Hmap & _).
  split; [exact Hdata|exact Hmap].
Defined.



Lemma X18_witness :
  propagateUpdate throwing_put tracking_view
    (BatchUpdate [ItemAdded item_d None; ItemAdded item_a None]) =
    (set_version 4 tracking_view, None).
Proof.
  assert (Hadds : Forall2 (fun event x => ∃ i, event = ItemAdded x i)
                    (events_of (BatchUpdate [ItemAdded item_d None;
                                             ItemAdded item_a None]))
                    [item_d; item_a]).
  { repeat constructor; exists None; reflexivity. }
  destruct (X18_added_events_store_nothing throwing_put tracking_view _ _ Hadds)
    as [Hstore Hnone].
  apply injective_projections; [exact Hstore|].
  apply Hnone. repeat constructor; eexists; reflexivity.
Defined.

Lemma X19_witness :
  (propagateUpdate throwing_put tracking_view
     (BatchUpdate [ItemDeleted "z" None; ItemAdded item_d None])).2 =
    Some (TypeError "Cannot read property 'splice' of undefined") ∧
  data (propagateUpdate throwing_put tracking_view
          (BatchUpdate [ItemDeleted "z" None; ItemAdded item_d None])).1 =
    data tracking_view.
Proof.
  assert (Habsent : map tracking_view !! "z" = None) by (vm_compute; reflexivity).
  destruct (X19_deleted_event_for_absent_id throwing_put tracking_view "z" None
              [ItemAdded item_d None] Habsent) as (Hthrown & Hdata & _).
  split; [exact Hthrown|exact Hdata].
Defined.


Lemma X21_witness :
  propagateUpdate throwing_put tracking_view
    (BatchUpdate [BatchUpdate [ItemDeleted "a" None]]) =
    (set_version 3 tracking_view, None).
Proof.
  apply (X21_batches_in_a_batch throwing_put tracking_view
           [BatchUpdate [ItemDeleted "a" None]]).
  repeat constructor.
Defined.
